(** * react-native-filter: the filter-selection state machine

    A shallow embedding of [domain/entities/Filter.ts] ([FilterUtils]) and of
    [presentation/hooks/useListFilters.ts] ([useListFilters]), followed by the
    properties of the selection state machine.

    Conventions of the embedding.
    - A TypeScript [string] is a [string]; a [string[]] is a [list string]
      (order and duplicates are kept, as in the array).
    - An optional field or an omitted argument is an [option]; [None] is the
      JavaScript [undefined].
    - [Array.prototype.includes] on strings is list membership,
      [Array.prototype.filter] is [filter], [[...xs, y]] is [xs ++ [y]].
    - The hook keeps one piece of React state, [selectedIds]. Every handler
      calls [setSelectedIds] exactly once with the next value, so a handler
      is embedded as the function from the rendered [selectedIds] to the
      value handed to [setSelectedIds]; the next render sees that value. *)

From stdpp Require Import list strings.

Open Scope string_scope.
Open Scope list_scope.

(** ** JavaScript operators used by the sources *)

Module JS.

(** Truthiness of a string: only the empty string is falsy. *)
Definition truthy (s : string) : bool :=
  match s with
  | EmptyString => false
  | String _ _ => true
  end.

(** [a || b] where [a] is a string or [undefined] and [b] a string. *)
Definition or_else (a : option string) (b : string) : string :=
  match a with
  | Some s => if truthy s then s else b
  | None => b
  end.

(** A parameter declared [p: string = dflt]: the default is taken when the
    argument is omitted. *)
Definition default_param (arg : option string) (dflt : string) : string :=
  match arg with
  | Some s => s
  | None => dflt
  end.

(** [v !== false] for an optional boolean. *)
Definition strict_neq_false (v : option bool) : bool :=
  match v with
  | Some false => false
  | Some true | None => true
  end.

End JS.

(** ** domain/entities/Filter.ts *)

Module Filter.

Record FilterOption : Type := {
  id : string;
  label : string;
  icon : option string
}.

Record FilterConfig : Type := {
  options : list FilterOption;
  defaultFilterId : option string;
  singleSelect : option bool
}.

End Filter.

Module FilterUtils.

(** [return filterId !== defaultFilterId;] *)
Definition isActiveFilter (filterId : string) (defaultFilterId : option string) : bool :=
  let defaultFilterId := JS.default_param defaultFilterId "all" in
  bool_decide (filterId ≠ defaultFilterId).

(** [return selectedIds[0] || defaultFilterId;] *)
Definition getActiveFilter (selectedIds : list string) (defaultFilterId : option string) : string :=
  let defaultFilterId := JS.default_param defaultFilterId "all" in
  JS.or_else (selectedIds !! 0%nat) defaultFilterId.

Definition hasActiveFilter (selectedIds : list string) (defaultFilterId : option string) : bool :=
  let defaultFilterId := JS.default_param defaultFilterId "all" in
  let activeFilter := getActiveFilter selectedIds (Some defaultFilterId) in
  isActiveFilter activeFilter (Some defaultFilterId).

End FilterUtils.

(** ** A log of the calls made to a callback

    [applyFilters] receives a callback; to speak about whether the callback
    is evaluated, a computation carries the list of arguments it was called
    on, in call order. *)

Module Calls.

Definition M (C A : Type) : Type := A * list C.

Definition ret {C A} (a : A) : M C A := (a, []).

Definition bind {C A B} (m : M C A) (k : A → M C B) : M C B :=
  let '(a, l1) := m in
  let '(b, l2) := k a in
  (b, l1 ++ l2).

(** Call [f] on [x] and record the call. *)
Definition call {X A} (f : X → A) (x : X) : M X A := (f x, [x]).

Definition value {C A} (m : M C A) : A := fst m.
Definition log {C A} (m : M C A) : list C := snd m.

(** [xs.some(f)]: stops at the first element on which [f] is true. *)
Fixpoint some {C A} (f : A → M C bool) (xs : list A) : M C bool :=
  match xs with
  | [] => ret false
  | x :: rest => bind (f x) (λ b, if b then ret true else some f rest)
  end.

(** [xs.filter(f)]: visits every element, keeps those on which [f] is true. *)
Fixpoint filter {C A} (f : A → M C bool) (xs : list A) : M C (list A) :=
  match xs with
  | [] => ret []
  | x :: rest =>
      bind (f x) (λ b,
      bind (filter f rest) (λ kept,
      ret (if b then x :: kept else kept)))
  end.

End Calls.

(** ** presentation/hooks/useListFilters.ts *)

Module useListFilters.

Section Hook.

Variable config : Filter.FilterConfig.

(** [const defaultFilterId = config.defaultFilterId || "all";] *)
Definition defaultFilterId : string :=
  JS.or_else (Filter.defaultFilterId config) "all".

(** [useState<string[]>([defaultFilterId])] *)
Definition initialSelectedIds : list string := [defaultFilterId].

Definition activeFilter (selectedIds : list string) : string :=
  FilterUtils.getActiveFilter selectedIds (Some defaultFilterId).

Definition hasActiveFilter (selectedIds : list string) : bool :=
  FilterUtils.hasActiveFilter selectedIds (Some defaultFilterId).

(** The value passed to [setSelectedIds] by [handleFilterPress(filterId)]. *)
Definition handleFilterPress (selectedIds : list string) (filterId : string) : list string :=
  if JS.strict_neq_false (Filter.singleSelect config) then
    (* Single select mode (default) *)
    if bool_decide (filterId ∈ selectedIds) && bool_decide (filterId ≠ defaultFilterId) then
      [defaultFilterId]
    else
      [filterId]
  else
    (* Multi-select mode *)
    if bool_decide (filterId = defaultFilterId) then
      [defaultFilterId]
    else if bool_decide (filterId ∈ selectedIds) then
      let newIds := filter (λ id, id ≠ filterId) selectedIds in
      (* [newIds.length > 0 ? newIds : [defaultFilterId]] *)
      if bool_decide (0 < length newIds) then newIds else [defaultFilterId]
    else
      let newIds := filter (λ id, id ≠ defaultFilterId) selectedIds in
      newIds ++ [filterId].

(** The value passed to [setSelectedIds] by [handleClearFilters()]. *)
Definition handleClearFilters (selectedIds : list string) : list string :=
  [defaultFilterId].

(** [applyFilters(items, filterFn)], with the log of the [(item, filterId)]
    pairs on which [filterFn] was called. *)
Definition applyFilters {T : Type} (selectedIds : list string)
    (items : list T) (filterFn : T → string → bool) : Calls.M (T * string) (list T) :=
  if negb (hasActiveFilter selectedIds) then Calls.ret items
  else
    Calls.filter (λ item,
      Calls.some (λ filterId,
        Calls.call (λ p, filterFn (fst p) (snd p)) (item, filterId)) selectedIds) items.

(** *** The state machine driven by the view *)

Inductive Event : Type :=
| Press (filterId : string)
| Clear.

Definition step (selectedIds : list string) (e : Event) : list string :=
  match e with
  | Press filterId => handleFilterPress selectedIds filterId
  | Clear => handleClearFilters selectedIds
  end.

Definition run (events : list Event) : list string :=
  foldl step initialSelectedIds events.

Inductive reachable : list string → Prop :=
| reachable_init : reachable initialSelectedIds
| reachable_step selectedIds e :
    reachable selectedIds → reachable (step selectedIds e).

End Hook.

Definition singleSelectMode (config : Filter.FilterConfig) : Prop :=
  JS.strict_neq_false (Filter.singleSelect config) = true.

Definition multiSelectMode (config : Filter.FilterConfig) : Prop :=
  JS.strict_neq_false (Filter.singleSelect config) = false.

End useListFilters.

(** ** Worked configurations

    The configuration of the package's usage example (options [all],
    [active], [completed], default [all]), in each mode, and a small item
    list to filter. *)

Module Examples.

Definition option_ (id label : string) : Filter.FilterOption :=
  {| Filter.id := id; Filter.label := label; Filter.icon := None |}.

Definition todoOptions : list Filter.FilterOption :=
  [option_ "all" "All Items"; option_ "active" "Active"; option_ "completed" "Completed"].

Definition todoConfig (singleSelect : option bool) : Filter.FilterConfig :=
  {| Filter.options := todoOptions;
     Filter.defaultFilterId := Some "all";
     Filter.singleSelect := singleSelect |}.

Definition single : Filter.FilterConfig := todoConfig None.
Definition multi : Filter.FilterConfig := todoConfig (Some false).

Definition bare (defaultFilterId : option string) : Filter.FilterConfig :=
  {| Filter.options := [];
     Filter.defaultFilterId := defaultFilterId;
     Filter.singleSelect := None |}.

Record Todo : Type := { status : string }.

Definition todos : list Todo :=
  [ {| status := "active" |}; {| status := "completed" |} ].

Definition byStatus (item : Todo) (filterId : string) : bool :=
  bool_decide (status item = filterId).

End Examples.

(** ** React state setters

    A state setter takes the next value, or a function from the pending
    state to the next value. *)

Module React.

Inductive SetStateAction (S : Type) : Type :=
| Value (next : S)
| Updater (f : S → S).

Arguments Value {S} next.
Arguments Updater {S} f.

Definition apply {S : Type} (action : SetStateAction S) (prev : S) : S :=
  match action with
  | Value next => next
  | Updater f => f prev
  end.

End React.

(** ** presentation/hooks/useListModals.ts

    The hook keeps two independent pieces of state. A handler is embedded as
    the action it passes to the setter of one of them; none of the handlers
    reads the rendered state, so calls made with or without a render in
    between have the same effect. *)

Module useListModals.

Record ModalState : Type := {
  filterModalVisible : bool;
  sortModalVisible : bool
}.

(** [useState(false)], twice. *)
Definition initial : ModalState :=
  {| filterModalVisible := false; sortModalVisible := false |}.

Definition setFilterModalVisible (action : React.SetStateAction bool) (s : ModalState) : ModalState :=
  {| filterModalVisible := React.apply action (filterModalVisible s);
     sortModalVisible := sortModalVisible s |}.

Definition setSortModalVisible (action : React.SetStateAction bool) (s : ModalState) : ModalState :=
  {| filterModalVisible := filterModalVisible s;
     sortModalVisible := React.apply action (sortModalVisible s) |}.

Definition openFilterModal : ModalState → ModalState :=
  setFilterModalVisible (React.Value true).
Definition closeFilterModal : ModalState → ModalState :=
  setFilterModalVisible (React.Value false).
Definition toggleFilterModal : ModalState → ModalState :=
  setFilterModalVisible (React.Updater (λ prev, negb prev)).

Definition openSortModal : ModalState → ModalState :=
  setSortModalVisible (React.Value true).
Definition closeSortModal : ModalState → ModalState :=
  setSortModalVisible (React.Value false).
Definition toggleSortModal : ModalState → ModalState :=
  setSortModalVisible (React.Updater (λ prev, negb prev)).

(** The handlers returned by the hook, as the view can call them. *)
Inductive Handler : Type :=
| OpenFilterModal | CloseFilterModal | ToggleFilterModal
| OpenSortModal | CloseSortModal | ToggleSortModal.

Definition call (s : ModalState) (h : Handler) : ModalState :=
  match h with
  | OpenFilterModal => openFilterModal s
  | CloseFilterModal => closeFilterModal s
  | ToggleFilterModal => toggleFilterModal s
  | OpenSortModal => openSortModal s
  | CloseSortModal => closeSortModal s
  | ToggleSortModal => toggleSortModal s
  end.

Definition calls (s : ModalState) (hs : list Handler) : ModalState :=
  foldl call s hs.

(** Which of the two modals a handler is about. *)
Definition onFilterModal (h : Handler) : bool :=
  match h with
  | OpenFilterModal | CloseFilterModal | ToggleFilterModal => true
  | OpenSortModal | CloseSortModal | ToggleSortModal => false
  end.

End useListModals.

(** ** [every] and [filter] with a callback that may throw

    [None] is a thrown exception: it ends the loop and the call. *)

Module Throwing.

(** [xs.every(p)]: stops at the first element on which [p] is false. *)
Fixpoint every {A : Type} (p : A → option bool) (xs : list A) : option bool :=
  match xs with
  | [] => Some true
  | x :: rest => b ← p x; if b : bool then every p rest else Some false
  end.

(** [xs.filter(p)]: visits every element in order. *)
Fixpoint filter {A : Type} (p : A → option bool) (xs : list A) : option (list A) :=
  match xs with
  | [] => Some []
  | x :: rest =>
      b ← p x;
      kept ← filter p rest;
      Some (if b : bool then x :: kept else kept)
  end.

End Throwing.

(** ** domain/entities/Filter.ts: [FilterCondition] and [DataFilterUtils]

    A [FilterCondition] holds a [value: any], and the items are indexed as
    [(item as any)[field]]. A JavaScript value is a string, given concretely,
    or another value (number, boolean, null, undefined, object, array), left
    to the runtime: the built-in operators on those are parameters of the
    embedding. Reading a property and converting a value with [String(v)]
    or an ordering comparison are taken to return a result (no getter,
    [valueOf] or Symbol that throws). One built-in does fail on an ordinary
    value: [s.includes(v)] throws a TypeError when [v] is a RegExp. A call
    that throws is [None]. *)

Module DataFilterUtils.

Inductive Value (Other : Type) : Type :=
| VStr (s : string)
| VOther (o : Other).

Arguments VStr {Other} s.
Arguments VOther {Other} o.

(** The built-in operators, on the values that are not strings. *)
Class Runtime (Other : Type) : Type := {
  (** [a === b] on two values that are not strings. *)
  other_strict_eq : Other → Other → bool;
  (** SameValueZero, the comparison of [Array.prototype.includes]. *)
  other_same_value_zero : Other → Other → bool;
  (** [String(o)]. *)
  other_String : Other → string;
  (** The elements of [o] when [Array.isArray(o)]. *)
  elements : Other → option (list (Value Other));
  (** [a > b], [a >= b], [a < b], [a <= b]. *)
  js_gt : Value Other → Value Other → bool;
  js_gte : Value Other → Value Other → bool;
  js_lt : Value Other → Value Other → bool;
  js_lte : Value Other → Value Other → bool;
  (** [s.toLowerCase()]. *)
  toLowerCase : string → string;
  (** Whether [o] is a RegExp. *)
  isRegExp : Other → bool
}.

(** The items: [(item as any)[field]]. *)
Class Indexed (Other Item : Type) : Type := {
  get : Item → string → Value Other
}.

Record FilterCondition (Other : Type) : Type := {
  field : string;
  operator : string;
  value : Value Other
}.

Arguments field {Other} _.
Arguments operator {Other} _.
Arguments value {Other} _.

Section Runtime.

Context {Other Item : Type} `{!Runtime Other} `{!Indexed Other Item}.

(** [a === b]: a string equals only the same string. *)
Definition strict_eq (a b : Value Other) : bool :=
  match a, b with
  | VStr x, VStr y => bool_decide (x = y)
  | VOther x, VOther y => other_strict_eq x y
  | _, _ => false
  end.

Definition same_value_zero (a b : Value Other) : bool :=
  match a, b with
  | VStr x, VStr y => bool_decide (x = y)
  | VOther x, VOther y => other_same_value_zero x y
  | _, _ => false
  end.

(** [String(v)], also the conversion made by a template literal and by
    [String.prototype.includes] on its argument. *)
Definition toString (v : Value Other) : string :=
  match v with
  | VStr s => s
  | VOther o => other_String o
  end.

(** [s.includes(pattern)] on strings. *)
Definition includes (s pattern : string) : bool :=
  match String.index 0 pattern s with
  | Some _ => true
  | None => false
  end.

(** [Array.isArray(v)] *)
Definition isArray (v : Value Other) : bool :=
  match v with
  | VStr _ => false
  | VOther o => match elements o with Some _ => true | None => false end
  end.

(** [arr.includes(v)] for an array [arr]. *)
Definition array_includes (arr v : Value Other) : bool :=
  match arr with
  | VStr _ => false
  | VOther o =>
      match elements o with
      | Some elems => existsb (λ e, same_value_zero e v) elems
      | None => false
      end
  end.

(** [s.includes(searchString)] on a string [s]: a TypeError when
    [searchString] is a RegExp, otherwise [searchString] is converted to a
    string and searched for. *)
Definition String_includes (s : string) (searchString : Value Other) : option bool :=
  match searchString with
  | VStr pattern => Some (includes s pattern)
  | VOther o => if isRegExp o then None else Some (includes s (other_String o))
  end.

(** The body of [filters.every((filter) => ...)]: the [switch] on the
    operator. *)
Definition test (item : Item) (filter : FilterCondition Other) : option bool :=
  let v := get item (field filter) in
  if String.eqb (operator filter) "eq" then Some (strict_eq v (value filter))
  else if String.eqb (operator filter) "neq" then Some (negb (strict_eq v (value filter)))
  else if String.eqb (operator filter) "gt" then Some (js_gt v (value filter))
  else if String.eqb (operator filter) "gte" then Some (js_gte v (value filter))
  else if String.eqb (operator filter) "lt" then Some (js_lt v (value filter))
  else if String.eqb (operator filter) "lte" then Some (js_lte v (value filter))
  else if String.eqb (operator filter) "like" then
    String_includes (toString v) (value filter)
  else if String.eqb (operator filter) "ilike" then
    Some (includes (toLowerCase (toString v)) (toLowerCase (toString (value filter))))
  else if String.eqb (operator filter) "in" then
    Some (isArray (value filter) && array_includes (value filter) v)
  else Some true.

(** [applyFilters(data, filters)]; [None] as [filters] is a missing ([null]
    or [undefined]) filter list, [None] as result a thrown TypeError. *)
Definition applyFilters (data : list Item) (filters : option (list (FilterCondition Other))) :
    option (list Item) :=
  match filters with
  | None => Some data
  | Some filters =>
      if bool_decide (length filters = 0) then Some data
      else
        Throwing.filter (λ item,
          Throwing.every (λ filter, test item filter) filters) data
  end.

(** The double quote character. *)
Definition dquote : string := String (Ascii.ascii_of_nat 34) EmptyString.

(** [buildFilterString(filters)] *)
Definition buildFilterString (filters : list (FilterCondition Other)) : string :=
  String.concat ","
    (map (λ filter,
       let v :=
         match value filter with
         | VStr s => dquote +:+ s +:+ dquote
         | VOther o => other_String o
         end in
       field filter +:+ "." +:+ operator filter +:+ "." +:+ v) filters).


End Runtime.

End DataFilterUtils.

(** ** A runtime to compute with

    Values are strings, [undefined] or a RegExp; the items are tasks with
    two string properties. Two strings are ordered by their characters;
    [undefined] and a RegExp convert to NaN, so every ordering comparison
    with them is false. A RegExp is an object: it is identical to itself
    only, and here a RegExp is met only as the value of a condition, never
    as a property of an item, so two RegExp operands are never the same
    object. *)

Module Tasks.

Import DataFilterUtils.

Inductive Plain : Type :=
| Undefined
| RegExp (source : string).

Definition relational (cmp : string → string → bool) (a b : Value Plain) : bool :=
  match a, b with
  | VStr x, VStr y => cmp x y
  | _, _ => false
  end.

Definition lowerChar (c : Ascii.ascii) : Ascii.ascii :=
  let n := Ascii.nat_of_ascii c in
  if (65 <=? n)%nat && (n <=? 90)%nat then Ascii.ascii_of_nat (n + 32) else c.

Fixpoint lower (s : string) : string :=
  match s with
  | EmptyString => EmptyString
  | String c rest => String (lowerChar c) (lower rest)
  end.

Definition bothUndefined (a b : Plain) : bool :=
  match a, b with
  | Undefined, Undefined => true
  | _, _ => false
  end.

#[export] Instance plain_runtime : Runtime Plain := {
  other_strict_eq := bothUndefined;
  other_same_value_zero := bothUndefined;
  other_String o :=
    match o with
    | Undefined => "undefined"
    | RegExp source => "/" +:+ source +:+ "/"
    end;
  elements _ := None;
  js_gt := relational (λ x y, String.ltb y x);
  js_gte := relational (λ x y, String.leb y x);
  js_lt := relational String.ltb;
  js_lte := relational String.leb;
  toLowerCase := lower;
  isRegExp o := match o with RegExp _ => true | Undefined => false end
}.

Record Task : Type := { status : string; title : string }.

#[export] Instance task_indexed : Indexed Plain Task := {
  get item field :=
    if String.eqb field "status" then VStr (status item)
    else if String.eqb field "title" then VStr (title item)
    else VOther Undefined
}.

Definition condition (field operator : string) (value : string) : FilterCondition Plain :=
  {| field := field; operator := operator; value := VStr value |}.

(** [{ field: "title", operator: "like", value: /Re/ }] *)
Definition likeRegExp : FilterCondition Plain :=
  {| field := "title"; operator := "like"; value := VOther (RegExp "Re") |}.

Definition tasks : list Task :=
  [ {| status := "active"; title := "Write report" |};
    {| status := "completed"; title := "Book flights" |};
    {| status := "active"; title := "Review budget" |} ].

End Tasks.

(** * Properties *)

(** Decide a closed decidable proposition by evaluation. *)
Ltac by_eval := apply (bool_decide_unpack _); vm_compute; exact I.

(** ** The scenarios of the specification, by evaluation *)

Module Scenarios.

Import useListFilters Examples.

Example default_of_todo : defaultFilterId single = "all".
Proof. reflexivity. Qed.

Example default_when_omitted : defaultFilterId (bare None) = "all".
Proof. reflexivity. Qed.

Example default_when_empty_string : defaultFilterId (bare (Some "")) = "all".
Proof. reflexivity. Qed.

Example single_scenario :
  run single [Press "active"] = ["active"] ∧
  run single [Press "active"; Press "active"] = ["all"] ∧
  run single [Press "active"; Press "active"; Press "completed"] = ["completed"].
Proof. repeat split; vm_compute; reflexivity. Qed.

Example multi_scenario :
  run multi [Press "active"] = ["active"] ∧
  run multi [Press "active"; Press "completed"] = ["active"; "completed"] ∧
  run multi [Press "active"; Press "completed"; Press "active"] = ["completed"] ∧
  run multi [Press "active"; Press "completed"; Press "active"; Press "completed"] = ["all"].
Proof. repeat split; vm_compute; reflexivity. Qed.

Example apply_scenario :
  Calls.value (applyFilters multi ["active"; "completed"] todos byStatus) = todos ∧
  applyFilters multi ["all"] todos byStatus = (todos, []) ∧
  Calls.value (applyFilters multi ["completed"] todos byStatus) = [ {| status := "completed" |} ].
Proof. repeat split; vm_compute; reflexivity. Qed.

(** [some] stops at the first match: the first item matches [active], so
    [filterFn] is not called on it with [completed]. *)
Example apply_call_log :
  Calls.log (applyFilters multi ["active"; "completed"] todos byStatus) =
    [ ({| status := "active" |}, "active");
      ({| status := "completed" |}, "active");
      ({| status := "completed" |}, "completed") ].
Proof. vm_compute. reflexivity. Qed.

End Scenarios.

(** ** Basic facts about the embedding *)

Module Facts.

Import useListFilters.

Lemma truthy_false s : JS.truthy s = false ↔ s = "".
Proof. destruct s; simpl; split; congruence. Qed.

Lemma truthy_true s : JS.truthy s = true ↔ s ≠ "".
Proof. destruct s; simpl; split; congruence. Qed.

Lemma or_else_None b : JS.or_else None b = b.
Proof. reflexivity. Qed.

Lemma or_else_Some s b : s ≠ "" → JS.or_else (Some s) b = s.
Proof. intros Hs. unfold JS.or_else. by apply truthy_true in Hs as ->. Qed.

Lemma or_else_Some_empty b : JS.or_else (Some "") b = b.
Proof. reflexivity. Qed.

(** The hook's default identifier is never the empty string. *)
Lemma defaultFilterId_nonempty config : defaultFilterId config ≠ "".
Proof.
  unfold defaultFilterId, JS.or_else.
  destruct (Filter.defaultFilterId config) as [s|]; [|done].
  destruct (JS.truthy s) eqn:Hs; [|done].
  by apply truthy_true.
Qed.

(** The two modes exclude each other and cover every configuration. *)
Lemma mode_dec config : singleSelectMode config ∨ multiSelectMode config.
Proof.
  unfold singleSelectMode, multiSelectMode.
  destruct (JS.strict_neq_false _); auto.
Qed.

Lemma handleFilterPress_single config selectedIds filterId :
  singleSelectMode config →
  handleFilterPress config selectedIds filterId =
    if bool_decide (filterId ∈ selectedIds) && bool_decide (filterId ≠ defaultFilterId config)
    then [defaultFilterId config] else [filterId].
Proof. unfold singleSelectMode, handleFilterPress. by intros ->. Qed.

Lemma handleFilterPress_multi config selectedIds filterId :
  multiSelectMode config →
  handleFilterPress config selectedIds filterId =
    if bool_decide (filterId = defaultFilterId config) then [defaultFilterId config]
    else if bool_decide (filterId ∈ selectedIds) then
      let newIds := filter (λ id, id ≠ filterId) selectedIds in
      if bool_decide (0 < length newIds) then newIds else [defaultFilterId config]
    else filter (λ id, id ≠ defaultFilterId config) selectedIds ++ [filterId].
Proof. unfold multiSelectMode, handleFilterPress. by intros ->. Qed.

(** Removing an identifier that does not occur changes nothing. *)
Lemma filter_ne_absent (x : string) (l : list string) :
  x ∉ l → filter (λ id, id ≠ x) l = l.
Proof.
  induction l as [|y l IH]; [done|].
  rewrite not_elem_of_cons. intros [Hxy Hl].
  rewrite filter_cons_True by congruence.
  by rewrite IH.
Qed.

Lemma filter_ne_self (x : string) : filter (λ id, id ≠ x) [x] = [].
Proof. by rewrite filter_cons_False by (intros ?; congruence). Qed.

(** A press never produces the empty list, whatever the list it starts
    from. *)
Lemma handleFilterPress_nonempty config selectedIds filterId :
  handleFilterPress config selectedIds filterId ≠ [].
Proof.
  unfold handleFilterPress.
  repeat case_match; try done.
  - case_bool_decide as Hlen; [|done].
    intros Heq. rewrite Heq in Hlen. simpl in Hlen. lia.
  - intros Heq. by apply app_eq_nil in Heq as [_ ?].
Qed.

Lemma step_nonempty config selectedIds e : step config selectedIds e ≠ [].
Proof. destruct e; simpl; [apply handleFilterPress_nonempty | done]. Qed.

(** [run] only visits reachable states, and every reachable state is
    visited by some [run]. *)
Lemma run_snoc config events e :
  run config (events ++ [e]) = step config (run config events) e.
Proof. unfold run. by rewrite foldl_app. Qed.

Lemma run_reachable config events : reachable config (run config events).
Proof.
  induction events as [|e events IH] using rev_ind.
  - apply reachable_init.
  - rewrite run_snoc. by apply reachable_step.
Qed.

Lemma reachable_run config selectedIds :
  reachable config selectedIds → ∃ events, run config events = selectedIds.
Proof.
  induction 1 as [|s e _ [events <-]].
  - by exists [].
  - exists (events ++ [e]). apply run_snoc.
Qed.

End Facts.

(** ** More facts: the call log, and the shape of reachable selections *)

Module Shape.

Import useListFilters Facts.

Lemma value_bind {C A B} (m : Calls.M C A) (k : A → Calls.M C B) :
  Calls.value (Calls.bind m k) = Calls.value (k (Calls.value m)).
Proof. destruct m as [a l1]. unfold Calls.bind, Calls.value. simpl. by destruct (k a). Qed.

(** The value of [xs.some(f)] is true iff [f] is true somewhere in [xs]. *)
Lemma some_value {C A} (f : A → Calls.M C bool) (xs : list A) :
  Calls.value (Calls.some f xs) = bool_decide (Exists (λ x, Calls.value (f x)) xs).
Proof.
  induction xs as [|x xs IH].
  - symmetry. apply bool_decide_eq_false. by inversion 1.
  - cbn [Calls.some]. rewrite value_bind. destruct (Calls.value (f x)) eqn:Hx.
    + symmetry. apply bool_decide_eq_true. apply Exists_cons_hd. by rewrite Hx.
    + rewrite IH. apply bool_decide_ext. rewrite Exists_cons, Hx. simpl. tauto.
Qed.

(** The value of [xs.filter(f)] is the sublist of [xs] on which [f] is true. *)
Lemma filter_value {C A} (f : A → Calls.M C bool) (xs : list A) :
  Calls.value (Calls.filter f xs) = filter (λ x, Calls.value (f x)) xs.
Proof.
  induction xs as [|x xs IH]; simpl; [done|].
  rewrite !value_bind. unfold Calls.ret, Calls.value at 1. simpl.
  rewrite IH, filter_cons.
  destruct (Calls.value (f x)); by case_decide.
Qed.

(** In every reachable state the default identifier is either the whole
    selection or absent from it. *)
Lemma step_default_alone config selectedIds e :
  selectedIds = [defaultFilterId config] ∨ defaultFilterId config ∉ selectedIds →
  step config selectedIds e = [defaultFilterId config] ∨
  defaultFilterId config ∉ step config selectedIds e.
Proof.
  intros Hs. destruct e as [filterId|]; simpl; [|by left].
  unfold handleFilterPress.
  destruct (JS.strict_neq_false _).
  - case_match; [by left|].
    destruct (decide (filterId = defaultFilterId config)) as [->|Hne]; [by left|].
    right. rewrite list_elem_of_singleton. congruence.
  - case_bool_decide as Hd; [by left|].
    case_bool_decide as Hin.
    + simpl. case_bool_decide; [|by left].
      right. rewrite list_elem_of_filter.
      destruct Hs as [->|Hs]; [|tauto].
      apply list_elem_of_singleton in Hin. done.
    + right. rewrite elem_of_app, list_elem_of_filter, list_elem_of_singleton.
      intros [[? _]|?]; congruence.
Qed.

Lemma reachable_default_alone config selectedIds :
  reachable config selectedIds →
  selectedIds = [defaultFilterId config] ∨ defaultFilterId config ∉ selectedIds.
Proof.
  induction 1 as [|s e _ IH]; [by left|].
  by apply step_default_alone.
Qed.

Lemma reachable_nonempty config selectedIds :
  reachable config selectedIds → selectedIds ≠ [].
Proof. destruct 1; [done | apply step_nonempty]. Qed.

End Shape.

(** ** The selection state machine *)

Module Selection.

Import useListFilters Facts Shape Examples.

(** C1: in single-select mode, for every selection and every [filterId]:
    if [filterId] is in the current selection and is not the default
    identifier, a press results in exactly [[defaultFilterId]]; otherwise
    it results in exactly [[filterId]]. *)
Theorem single_select_press config selectedIds filterId :
  singleSelectMode config →
  (filterId ∈ selectedIds ∧ filterId ≠ defaultFilterId config →
     handleFilterPress config selectedIds filterId = [defaultFilterId config]) ∧
  (¬ (filterId ∈ selectedIds ∧ filterId ≠ defaultFilterId config) →
     handleFilterPress config selectedIds filterId = [filterId]).
Proof.
  intros Hmode. rewrite handleFilterPress_single by done.
  split.
  - intros [Hin Hne]. by rewrite !bool_decide_eq_true_2.
  - intros Hnot. case_bool_decide; [|done]. case_bool_decide; [tauto|done].
Qed.

Lemma single_select_press_witness :
  handleFilterPress single ["active"] "active" = ["all"] ∧
  handleFilterPress single ["active"] "completed" = ["completed"].
Proof.
  split.
  - apply (single_select_press single ["active"] "active"); [reflexivity | by_eval].
  - apply (single_select_press single ["active"] "completed"); [reflexivity | by_eval].
Defined.

(** C4: for every selection, in single-select and in multi-select mode,
    pressing the default identifier results in exactly
    [[defaultFilterId]]. *)
Theorem press_default_resets config selectedIds :
  handleFilterPress config selectedIds (defaultFilterId config) = [defaultFilterId config].
Proof.
  destruct (mode_dec config) as [Hmode|Hmode].
  - rewrite handleFilterPress_single by done.
    rewrite (bool_decide_eq_false_2 (_ ≠ _)) by auto.
    by rewrite andb_false_r.
  - rewrite handleFilterPress_multi by done.
    by rewrite bool_decide_eq_true_2.
Qed.

(** C6: for every selection, [clear()] results in exactly
    [[defaultFilterId]]; hence clearing twice yields the same state as
    clearing once. *)
Theorem clear_resets_idempotent config selectedIds :
  handleClearFilters config selectedIds = [defaultFilterId config] ∧
  handleClearFilters config (handleClearFilters config selectedIds) =
    handleClearFilters config selectedIds.
Proof. split; reflexivity. Qed.

(** C9: in single-select mode, for every prior selection list (also one
    holding several identifiers) and every [filterId], the result of a press
    has length exactly 1 and is [[defaultFilterId]] or [[filterId]]; if the
    prior list merely contains a non-default [filterId] among other
    identifiers, the press still collapses the selection to
    [[defaultFilterId]]. *)
Theorem single_select_press_singleton config selectedIds filterId :
  singleSelectMode config →
  length (handleFilterPress config selectedIds filterId) = 1 ∧
  (handleFilterPress config selectedIds filterId = [defaultFilterId config] ∨
   handleFilterPress config selectedIds filterId = [filterId]) ∧
  (∀ before after,
     selectedIds = before ++ filterId :: after →
     filterId ≠ defaultFilterId config →
     handleFilterPress config selectedIds filterId = [defaultFilterId config]).
Proof.
  intros Hmode. rewrite handleFilterPress_single by done.
  split_and!.
  - by case_match.
  - case_match; auto.
  - intros before after -> Hne.
    rewrite !bool_decide_eq_true_2; [done..|].
    rewrite elem_of_app, elem_of_cons. auto.
Qed.

Lemma single_select_press_singleton_witness :
  length (handleFilterPress single ["completed"; "active"; "archived"] "active") = 1 ∧
  handleFilterPress single ["completed"; "active"; "archived"] "active" = ["all"].
Proof.
  pose proof (single_select_press_singleton single
                ["completed"; "active"; "archived"] "active" eq_refl) as (Hlen & _ & Hin).
  split; [exact Hlen|].
  apply (Hin ["completed"] ["archived"]); [reflexivity | by_eval].
Defined.

(** C3: every state reachable from the initial state [[defaultFilterId]]
    by any sequence of presses and clears, in either mode, is a non-empty
    list. *)
Theorem reachable_selection_nonempty config selectedIds :
  reachable config selectedIds → selectedIds ≠ [] ∧ 0 < length selectedIds.
Proof.
  intros Hreach. apply reachable_nonempty in Hreach.
  split; [done|]. destruct selectedIds; [done | simpl; lia].
Qed.

Lemma reachable_selection_nonempty_witness :
  ["active"; "completed"] ≠ [] ∧ 0 < length ["active"; "completed"].
Proof.
  apply (reachable_selection_nonempty multi ["active"; "completed"]).
  exact (run_reachable multi [Press "active"; Clear; Press "completed"; Press "active";
                              Press "completed"; Press "completed"]).
Defined.

(** C8: a press is defined on every string, also on identifiers that are
    absent from the configured options, and its result does not depend on
    [config.options]: two configurations that agree on [defaultFilterId]
    and [singleSelect] give the same result for the same press in the same
    state. *)
Theorem press_ignores_options config1 config2 selectedIds filterId :
  Filter.defaultFilterId config1 = Filter.defaultFilterId config2 →
  Filter.singleSelect config1 = Filter.singleSelect config2 →
  (∃ result, handleFilterPress config1 selectedIds filterId = result ∧ result ≠ []) ∧
  handleFilterPress config1 selectedIds filterId =
    handleFilterPress config2 selectedIds filterId.
Proof.
  intros Hd Hs. split.
  - eexists. split; [reflexivity | apply handleFilterPress_nonempty].
  - unfold handleFilterPress, defaultFilterId. by rewrite Hd, Hs.
Qed.

Lemma press_ignores_options_witness :
  handleFilterPress multi ["active"] "archived" =
    handleFilterPress
      {| Filter.options := []; Filter.defaultFilterId := Some "all";
         Filter.singleSelect := Some false |} ["active"] "archived".
Proof.
  apply (press_ignores_options multi
           {| Filter.options := []; Filter.defaultFilterId := Some "all";
              Filter.singleSelect := Some false |} ["active"] "archived");
    reflexivity.
Defined.

(** C2: in multi-select mode, for every selection and every non-default
    [filterId]: if [filterId] is already selected, a press removes it and
    keeps the remaining identifiers in their order, falling back to
    [[defaultFilterId]] when nothing remains; if it is not selected, the
    press strips the default identifier and appends [filterId] at the end,
    so the result is the existing non-default identifiers in their original
    order followed by [filterId]. *)
Theorem multi_select_press config selectedIds filterId :
  multiSelectMode config →
  filterId ≠ defaultFilterId config →
  (filterId ∈ selectedIds →
     handleFilterPress config selectedIds filterId =
       match filter (λ id, id ≠ filterId) selectedIds with
       | [] => [defaultFilterId config]
       | remaining => remaining
       end) ∧
  (filterId ∉ selectedIds →
     handleFilterPress config selectedIds filterId =
       filter (λ id, id ≠ defaultFilterId config) selectedIds ++ [filterId]).
Proof.
  intros Hmode Hne. rewrite handleFilterPress_multi by done.
  rewrite bool_decide_eq_false_2 by done.
  split; intros Hin.
  - rewrite bool_decide_eq_true_2 by done. cbn zeta.
    destruct (filter _ selectedIds) as [|y remaining]; [done|].
    by rewrite bool_decide_eq_true_2 by (simpl; lia).
  - by rewrite bool_decide_eq_false_2 by done.
Qed.

Lemma multi_select_press_witness :
  handleFilterPress multi ["active"; "completed"] "active" = ["completed"] ∧
  handleFilterPress multi ["completed"] "completed" = ["all"] ∧
  handleFilterPress multi ["all"] "active" = ["active"] ∧
  handleFilterPress multi ["active"] "completed" = ["active"; "completed"].
Proof.
  split_and!.
  - apply (multi_select_press multi ["active"; "completed"] "active");
      [reflexivity | by_eval | by_eval].
  - apply (multi_select_press multi ["completed"] "completed");
      [reflexivity | by_eval | by_eval].
  - apply (multi_select_press multi ["all"] "active");
      [reflexivity | by_eval | by_eval].
  - apply (multi_select_press multi ["active"] "completed");
      [reflexivity | by_eval | by_eval].
Defined.

(** C10: in multi-select mode, for every reachable selection [s] and every
    identifier [x] that is not the default and not in [s], pressing [x] and
    then pressing [x] again restores exactly [s]. *)
Theorem multi_select_press_twice config selectedIds x :
  multiSelectMode config →
  reachable config selectedIds →
  x ≠ defaultFilterId config →
  x ∉ selectedIds →
  handleFilterPress config (handleFilterPress config selectedIds x) x = selectedIds.
Proof.
  intros Hmode Hreach Hne Hnotin.
  assert (Hkept : x ∉ filter (λ id, id ≠ defaultFilterId config) selectedIds).
  { rewrite list_elem_of_filter. tauto. }
  rewrite !handleFilterPress_multi by done.
  rewrite (bool_decide_eq_false_2 (x = _)) by done.
  rewrite (bool_decide_eq_false_2 (x ∈ selectedIds)) by done.
  rewrite bool_decide_eq_true_2 by (rewrite elem_of_app, list_elem_of_singleton; auto).
  cbn zeta.
  rewrite filter_app, filter_ne_self, app_nil_r, filter_ne_absent by done.
  destruct (reachable_default_alone _ _ Hreach) as [->|Hd].
  - by rewrite filter_ne_self.
  - rewrite filter_ne_absent by done.
    apply reachable_nonempty in Hreach.
    destruct selectedIds; [done|].
    by rewrite bool_decide_eq_true_2 by (simpl; lia).
Qed.

Lemma multi_select_press_twice_witness :
  handleFilterPress multi (handleFilterPress multi ["all"] "active") "active" = ["all"] ∧
  handleFilterPress multi (handleFilterPress multi ["active"] "completed") "completed"
    = ["active"].
Proof.
  split.
  - apply (multi_select_press_twice multi ["all"] "active");
      [reflexivity | exact (run_reachable multi []) | by_eval | by_eval].
  - apply (multi_select_press_twice multi ["active"] "completed");
      [reflexivity | exact (run_reachable multi [Press "active"]) | by_eval | by_eval].
Defined.

End Selection.

(** ** Derived queries and [applyFilters] *)

Module Queries.

Import useListFilters Facts Shape Examples.

(** An empty identifier can be pressed like any other, and is then the
    selection; the derived queries do not see it. *)
Example empty_identifier_selected :
  run single [Press ""] = [""] ∧
  activeFilter single [""] = "all" ∧
  hasActiveFilter single [""] = false.
Proof. repeat split; vm_compute; reflexivity. Qed.

Lemma getActiveFilter_nil d : FilterUtils.getActiveFilter [] (Some d) = d.
Proof. reflexivity. Qed.

Lemma getActiveFilter_cons x rest d :
  FilterUtils.getActiveFilter (x :: rest) (Some d) = if JS.truthy x then x else d.
Proof. reflexivity. Qed.

Lemma hasActiveFilter_unfold selectedIds d :
  FilterUtils.hasActiveFilter selectedIds (Some d) =
    bool_decide (FilterUtils.getActiveFilter selectedIds (Some d) ≠ d).
Proof. reflexivity. Qed.

Lemma hasActiveFilter_default_alone config :
  hasActiveFilter config [defaultFilterId config] = false.
Proof.
  unfold hasActiveFilter. rewrite hasActiveFilter_unfold, getActiveFilter_cons.
  apply bool_decide_eq_false_2. by destruct (JS.truthy _); intros [].
Qed.








End Queries.

(** ** Further invariants of the selection, and the queries on reachable
    states *)

Module Invariants.

Import useListFilters Facts Shape Examples.

Lemma step_NoDup config selectedIds e :
  NoDup selectedIds → NoDup (step config selectedIds e).
Proof.
  intros Hnd. destruct e as [filterId|]; simpl; [|apply NoDup_singleton].
  unfold handleFilterPress.
  destruct (JS.strict_neq_false _).
  - case_match; apply NoDup_singleton.
  - case_bool_decide as Hd; [apply NoDup_singleton|].
    case_bool_decide as Hin.
    + cbn zeta. case_bool_decide; [by apply NoDup_filter | apply NoDup_singleton].
    + apply NoDup_app. split_and!.
      * by apply NoDup_filter.
      * intros y Hy Hx. apply list_elem_of_singleton in Hx as ->.
        apply list_elem_of_filter in Hy. tauto.
      * apply NoDup_singleton.
Qed.

Lemma step_no_empty_identifier config selectedIds e :
  e ≠ Press "" → "" ∉ selectedIds → "" ∉ step config selectedIds e.
Proof.
  intros He Hs.
  assert (Hd : "" ∉ [defaultFilterId config]).
  { rewrite list_elem_of_singleton. intros Heq.
    by apply (defaultFilterId_nonempty config). }
  destruct e as [filterId|]; simpl; [|done].
  assert (Hf : filterId ≠ "") by congruence.
  assert (Hx : "" ∉ [filterId]).
  { rewrite list_elem_of_singleton. congruence. }
  unfold handleFilterPress.
  destruct (JS.strict_neq_false _).
  - by case_match.
  - case_bool_decide; [done|].
    case_bool_decide.
    + cbn zeta. case_bool_decide; [|done].
      rewrite list_elem_of_filter. tauto.
    + rewrite elem_of_app, list_elem_of_filter. tauto.
Qed.

Lemma run_no_empty_identifier config events :
  Forall (λ e, e ≠ Press "") events → "" ∉ run config events.
Proof.
  induction events as [|e events IH] using rev_ind; intros Hall.
  - change (run config []) with [defaultFilterId config].
    rewrite list_elem_of_singleton. intros Heq.
    by apply (defaultFilterId_nonempty config).
  - rewrite Forall_app, Forall_singleton in Hall. destruct Hall as [Hall He].
    rewrite run_snoc. apply step_no_empty_identifier; [exact He | by apply IH].
Qed.

Lemma run_shape config events :
  run config events = [defaultFilterId config] ∨
  (run config events ≠ [] ∧ defaultFilterId config ∉ run config events).
Proof.
  pose proof (run_reachable config events) as Hreach.
  destruct (reachable_default_alone _ _ Hreach) as [?|?]; [by left|].
  right. split; [by apply (reachable_nonempty config) | done].
Qed.

(** X1: whatever the mode and the sequence of presses and clears, the
    default identifier is the whole selection or is not selected at all. *)
Theorem run_default_exclusive config events :
  run config events = [defaultFilterId config] ∨
  (run config events ≠ [] ∧ defaultFilterId config ∉ run config events).
Proof.
  induction events as [|e events IH] using rev_ind; [by left|].
  rewrite run_snoc.
  destruct (step_default_alone config (run config events) e) as [?|?];
    [tauto | by left |].
  right. split; [apply step_nonempty | done].
Qed.

(** X2: whatever the mode and the sequence of presses and clears, no
    identifier is selected twice. *)
Theorem run_NoDup config events : NoDup (run config events).
Proof.
  induction events as [|e events IH] using rev_ind.
  - apply NoDup_singleton.
  - rewrite run_snoc. by apply step_NoDup.
Qed.

(** X3: in single-select mode the selection always holds exactly one
    identifier. *)
Theorem single_select_run_singleton config events :
  singleSelectMode config → length (run config events) = 1.
Proof.
  intros Hmode. destruct events as [|e events _] using rev_ind; [done|].
  rewrite run_snoc. destruct e as [filterId|]; simpl; [|done].
  rewrite handleFilterPress_single by done. by case_match.
Qed.

Lemma single_select_run_singleton_witness :
  length (run single [Press "active"; Press "completed"; Press "completed"; Clear;
                      Press "archived"]) = 1.
Proof.
  apply (single_select_run_singleton single). reflexivity.
Defined.

(** X4: in multi-select mode a press on a non-default identifier toggles
    that identifier and leaves every other non-default identifier as it was,
    selected or not. *)
Theorem multi_select_press_toggles config selectedIds x :
  multiSelectMode config →
  x ≠ defaultFilterId config →
  (x ∈ handleFilterPress config selectedIds x ↔ x ∉ selectedIds) ∧
  (∀ y, y ≠ x → y ≠ defaultFilterId config →
     (y ∈ handleFilterPress config selectedIds x ↔ y ∈ selectedIds)).
Proof.
  intros Hmode Hne. rewrite handleFilterPress_multi by done.
  rewrite bool_decide_eq_false_2 by done.
  case_bool_decide as Hin; cbn zeta.
  - case_bool_decide as Hlen.
    + split.
      * rewrite list_elem_of_filter. tauto.
      * intros y Hy _. rewrite list_elem_of_filter. tauto.
    + assert (Hnil : filter (λ id, id ≠ x) selectedIds = []).
      { destruct (filter _ selectedIds); [done | simpl in Hlen; lia]. }
      split.
      * rewrite list_elem_of_singleton. tauto.
      * intros y Hy Hyd. rewrite list_elem_of_singleton. split; [done|].
        intros Hys. by destruct (filter_nil_not_elem_of _ _ y Hnil).
  - split.
    + rewrite elem_of_app, list_elem_of_singleton. tauto.
    + intros y Hy Hyd.
      rewrite elem_of_app, list_elem_of_filter, list_elem_of_singleton. tauto.
Qed.

Lemma multi_select_press_toggles_witness :
  ("completed" ∈ handleFilterPress multi ["active"; "completed"] "completed" ↔
     "completed" ∉ ["active"; "completed"]) ∧
  ("active" ∈ handleFilterPress multi ["active"; "completed"] "completed" ↔
     "active" ∈ ["active"; "completed"]).
Proof.
  destruct (multi_select_press_toggles multi ["active"; "completed"] "completed")
    as [Hself Hothers]; [reflexivity | by_eval |].
  split; [exact Hself|].
  apply Hothers; by_eval.
Defined.

End Invariants.

(** ** The queries and [applyFilters] along the state machine *)

Module Filtering.

Import useListFilters Facts Shape Examples Queries Invariants.

Lemma log_bind {C A B} (m : Calls.M C A) (k : A → Calls.M C B) :
  Calls.log (Calls.bind m k) = Calls.log m ++ Calls.log (k (Calls.value m)).
Proof. destruct m as [a l1]. unfold Calls.bind, Calls.log, Calls.value. simpl. by destruct (k a). Qed.

Section Probe.

Context {T : Type} (filterFn : T → string → bool).

(** The callback handed to [some] for one item. *)
Local Abbreviation probe item :=
  (λ filterId : string, Calls.call (λ p : T * string, filterFn (fst p) (snd p)) (item, filterId)).

Lemma some_probe_log item ids :
  Forall (λ c, c.1 = item ∧ c.2 ∈ ids) (Calls.log (Calls.some (probe item) ids)) ∧
  (length (Calls.log (Calls.some (probe item) ids)) ≤ length ids)%nat ∧
  (ids ≠ [] → 0 < length (Calls.log (Calls.some (probe item) ids))).
Proof.
  induction ids as [|id ids (IHin & IHlen & _)].
  - split_and!; [constructor | done | done].
  - cbn [Calls.some]. rewrite log_bind.
    change (Calls.log (Calls.call _ (item, id))) with [(item, id)].
    change (Calls.value (Calls.call _ (item, id))) with (filterFn item id).
    split_and!.
    + constructor; [split; [done | apply list_elem_of_here]|].
      destruct (filterFn item id); [constructor|].
      eapply Forall_impl; [exact IHin|]. intros c [? ?]. split; [done|].
      by apply list_elem_of_further.
    + destruct (filterFn item id); simpl; lia.
    + intros _. simpl. lia.
Qed.

Lemma filter_some_log items ids :
  Forall (λ c, c.1 ∈ items ∧ c.2 ∈ ids)
    (Calls.log (Calls.filter (λ item, Calls.some (probe item) ids) items)) ∧
  (length (Calls.log (Calls.filter (λ item, Calls.some (probe item) ids) items))
    ≤ length items * length ids)%nat ∧
  (ids ≠ [] →
   (length items
     ≤ length (Calls.log (Calls.filter (λ item, Calls.some (probe item) ids) items)))%nat).
Proof.
  induction items as [|item items (IHin & IHlen & IHmin)].
  - split_and!; [constructor | done | done].
  - cbn [Calls.filter]. rewrite !log_bind.
    change (Calls.log (Calls.ret _)) with (@nil (T * string)).
    rewrite app_nil_r.
    destruct (some_probe_log item ids) as (Hin & Hlen & Hmin).
    split_and!.
    + apply Forall_app. split.
      * eapply Forall_impl; [exact Hin|]. intros c [<- ?]. split; [apply list_elem_of_here | done].
      * eapply Forall_impl; [exact IHin|]. intros c [? ?]. split; [|done].
        by apply list_elem_of_further.
    + rewrite length_app. simpl. lia.
    + intros Hne. specialize (Hmin Hne). specialize (IHmin Hne).
      rewrite length_app. simpl. lia.
Qed.

Lemma filter_log_app (F : T → Calls.M (T * string) bool) items1 items2 :
  Calls.log (Calls.filter F (items1 ++ items2)) =
    Calls.log (Calls.filter F items1) ++ Calls.log (Calls.filter F items2).
Proof.
  induction items1 as [|item items1 IH]; [done|].
  simpl. rewrite !log_bind.
  change (Calls.log (Calls.ret _)) with (@nil (T * string)).
  rewrite !app_nil_r, IH. by rewrite app_assoc.
Qed.

(** The value of [applyFilters] when a filter is active. *)
Lemma applyFilters_active config selectedIds (items : list T) :
  hasActiveFilter config selectedIds = true →
  Calls.value (applyFilters config selectedIds items filterFn) =
    filter (λ item, Exists (λ filterId, filterFn item filterId) selectedIds) items.
Proof.
  intros Hon. unfold applyFilters. rewrite Hon. simpl.
  rewrite filter_value. apply list_filter_iff. intros item.
  rewrite some_value. by rewrite bool_decide_spec.
Qed.

Lemma applyFilters_inactive config selectedIds (items : list T) :
  hasActiveFilter config selectedIds = false →
  applyFilters config selectedIds items filterFn = (items, []).
Proof. intros Hoff. unfold applyFilters. by rewrite Hoff. Qed.

End Probe.

Lemma sublist_filter_impl {A} (P Q : A → Prop) `{!∀ x, Decision (P x)} `{!∀ x, Decision (Q x)}
    (l : list A) :
  (∀ x, P x → Q x) → sublist (filter P l) (filter Q l).
Proof.
  intros HPQ. induction l as [|x l IH]; [done|].
  rewrite !filter_cons. destruct (decide (P x)) as [HP|HP].
  - rewrite decide_True by auto. by apply sublist_skip.
  - destruct (decide (Q x)); [by apply sublist_cons | done].
Qed.

Lemma hasActiveFilter_app config x rest more :
  hasActiveFilter config ((x :: rest) ++ more) = hasActiveFilter config (x :: rest).
Proof. reflexivity. Qed.

(** X5: as long as the empty identifier is never pressed, after any
    sequence of presses and clears [hasActiveFilter] is true exactly when the
    selection is not the default alone, and [activeFilter] is the first
    selected identifier. *)
Theorem hasActiveFilter_iff_not_default config events :
  Forall (λ e, e ≠ Press "") events →
  (hasActiveFilter config (run config events) = true ↔
     run config events ≠ [defaultFilterId config]) ∧
  head (run config events) = Some (activeFilter config (run config events)).
Proof.
  intros Hpressed.
  pose proof (run_no_empty_identifier config events Hpressed) as Hempty.
  destruct (run_shape config events) as [->|[Hne Hd]].
  - rewrite hasActiveFilter_default_alone. split; [done|].
    unfold activeFilter. rewrite getActiveFilter_cons. by case_match.
  - destruct (run config events) as [|x rest]; [done|].
    apply not_elem_of_cons in Hempty as [Hx _].
    apply not_elem_of_cons in Hd as [Hxd _].
    unfold hasActiveFilter, activeFilter.
    rewrite hasActiveFilter_unfold, getActiveFilter_cons.
    assert (JS.truthy x = true) as -> by (apply truthy_true; congruence).
    split; [|done]. split.
    + intros _ Heq. by simplify_eq.
    + intros _. apply bool_decide_eq_true_2. congruence.
Qed.

Lemma hasActiveFilter_iff_not_default_witness :
  hasActiveFilter multi ["active"; "completed"] = true ∧
  head ["active"; "completed"] = Some (activeFilter multi ["active"; "completed"]).
Proof.
  destruct (hasActiveFilter_iff_not_default multi [Press "active"; Press "completed"])
    as [Hactive Hhead].
  - repeat constructor; discriminate.
  - split; [|exact Hhead]. apply Hactive. by_eval.
Defined.

(** X6: [FilterUtils.hasActiveFilter], with or without its second argument,
    is true exactly when the list has a first element that is neither the
    empty string nor the default identifier ([all] when the argument is
    omitted); the other elements are not looked at. *)
Theorem hasActiveFilter_first_element selectedIds defaultFilterId :
  FilterUtils.hasActiveFilter selectedIds defaultFilterId = true ↔
  ∃ first, head selectedIds = Some first ∧ first ≠ "" ∧
           first ≠ JS.default_param defaultFilterId "all".
Proof.
  unfold FilterUtils.hasActiveFilter, FilterUtils.isActiveFilter,
    FilterUtils.getActiveFilter. cbn [JS.default_param].
  rewrite bool_decide_eq_true.
  destruct selectedIds as [|x rest]; cbn [lookup list_lookup head JS.or_else].
  - split; [done|]. by intros (first & ? & _).
  - destruct (JS.truthy x) eqn:Hx.
    + apply truthy_true in Hx. split; [by exists x|].
      by intros (first & ? & _ & ?); simplify_eq.
    + apply truthy_false in Hx as ->. split; [done|].
      by intros (first & ? & ? & _); simplify_eq.
Qed.

Lemma hasActiveFilter_nil config : hasActiveFilter config [] = false.
Proof.
  unfold hasActiveFilter. rewrite hasActiveFilter_unfold, getActiveFilter_nil.
  by apply bool_decide_eq_false_2; intros [].
Qed.

(** X7: [applyFilters] calls the predicate only on an item of the list with
    a selected identifier, and makes at most as many calls as there are items
    times selected identifiers; when a filter is active it makes at least
    one call per item. *)
Theorem applyFilters_calls {T : Type} config selectedIds (items : list T)
    (filterFn : T → string → bool) :
  Forall (λ c, c.1 ∈ items ∧ c.2 ∈ selectedIds)
    (Calls.log (applyFilters config selectedIds items filterFn)) ∧
  (length (Calls.log (applyFilters config selectedIds items filterFn))
     ≤ length items * length selectedIds)%nat ∧
  (hasActiveFilter config selectedIds = true →
   (length items ≤ length (Calls.log (applyFilters config selectedIds items filterFn)))%nat).
Proof.
  unfold applyFilters. destruct (hasActiveFilter config selectedIds) eqn:Hon; simpl.
  - destruct (filter_some_log filterFn items selectedIds) as (Hin & Hlen & Hmin).
    split_and!; [done..|]. intros _. apply Hmin. intros ->.
    by rewrite hasActiveFilter_nil in Hon.
  - split_and!; [constructor | lia | done].
Qed.

Lemma applyFilters_calls_witness :
  (length todos ≤ length (Calls.log (applyFilters multi ["completed"; "archived"] todos byStatus)))%nat.
Proof.
  apply (applyFilters_calls multi ["completed"; "archived"] todos byStatus).
  reflexivity.
Defined.

(** X8: in multi-select mode, when a filter is active, selecting one more
    identifier never removes an item from the filtered list: the old result
    is a subsequence of the new one. *)
Theorem applyFilters_select_more {T : Type} config events x (items : list T)
    (filterFn : T → string → bool) :
  multiSelectMode config →
  hasActiveFilter config (run config events) = true →
  x ≠ defaultFilterId config →
  x ∉ run config events →
  sublist
    (Calls.value (applyFilters config (run config events) items filterFn))
    (Calls.value (applyFilters config
                    (handleFilterPress config (run config events) x) items filterFn)).
Proof.
  intros Hmode Hon Hx Hfresh.
  destruct (run_shape config events) as [Heq|[Hne Hd]].
  { rewrite Heq, hasActiveFilter_default_alone in Hon. discriminate. }
  rewrite handleFilterPress_multi by done.
  rewrite !bool_decide_eq_false_2 by done.
  rewrite filter_ne_absent by done.
  destruct (run config events) as [|y rest]; [done|].
  rewrite !applyFilters_active by (by rewrite ?hasActiveFilter_app).
  apply sublist_filter_impl. intros item. rewrite Exists_app. auto.
Qed.

Lemma applyFilters_select_more_witness :
  sublist
    (Calls.value (applyFilters multi ["active"] todos byStatus))
    (Calls.value (applyFilters multi (handleFilterPress multi ["active"] "completed")
                    todos byStatus)).
Proof.
  apply (applyFilters_select_more multi [Press "active"] "completed" todos byStatus);
    [reflexivity | reflexivity | by_eval | by_eval].
Defined.

(** X9: filtering a concatenation is filtering each part: the kept items
    and the calls made to the predicate are those of the first part followed
    by those of the second. *)
Theorem applyFilters_app {T : Type} config selectedIds (items1 items2 : list T)
    (filterFn : T → string → bool) :
  Calls.value (applyFilters config selectedIds (items1 ++ items2) filterFn) =
    Calls.value (applyFilters config selectedIds items1 filterFn) ++
    Calls.value (applyFilters config selectedIds items2 filterFn) ∧
  Calls.log (applyFilters config selectedIds (items1 ++ items2) filterFn) =
    Calls.log (applyFilters config selectedIds items1 filterFn) ++
    Calls.log (applyFilters config selectedIds items2 filterFn).
Proof.
  unfold applyFilters. destruct (hasActiveFilter config selectedIds); simpl; [|done].
  split.
  - by rewrite !filter_value, filter_app.
  - apply filter_log_app.
Qed.

(** X10: in single-select mode, pressing an identifier that is not
    selected, not empty and not the default makes [applyFilters] keep exactly
    the items on which the predicate holds for that identifier; pressing a
    selected identifier makes it return every item. *)
Theorem single_select_press_then_apply {T : Type} config selectedIds x (items : list T)
    (filterFn : T → string → bool) :
  singleSelectMode config →
  x ≠ "" →
  x ≠ defaultFilterId config →
  (x ∉ selectedIds →
     Calls.value (applyFilters config (handleFilterPress config selectedIds x) items filterFn)
       = filter (λ item, filterFn item x) items) ∧
  (x ∈ selectedIds →
     applyFilters config (handleFilterPress config selectedIds x) items filterFn
       = (items, [])).
Proof.
  intros Hmode Hx Hd. rewrite handleFilterPress_single by done.
  split; intros Hin.
  - rewrite bool_decide_eq_false_2 by done. simpl.
    rewrite applyFilters_active.
    + apply list_filter_iff. intros item. rewrite Exists_cons, Exists_nil. tauto.
    + unfold hasActiveFilter. rewrite hasActiveFilter_unfold, getActiveFilter_cons.
      assert (JS.truthy x = true) as -> by by apply truthy_true.
      by apply bool_decide_eq_true_2.
  - rewrite !bool_decide_eq_true_2 by done. simpl.
    apply applyFilters_inactive, hasActiveFilter_default_alone.
Qed.

Lemma single_select_press_then_apply_witness :
  Calls.value (applyFilters single (handleFilterPress single ["all"] "completed")
                 todos byStatus) = [ {| status := "completed" |} ] ∧
  applyFilters single (handleFilterPress single ["completed"] "completed") todos byStatus
    = (todos, []).
Proof.
  destruct (single_select_press_then_apply single ["all"] "completed" todos byStatus)
    as [Hselect _]; [reflexivity | by_eval | by_eval |].
  destruct (single_select_press_then_apply single ["completed"] "completed" todos byStatus)
    as [_ Hdeselect]; [reflexivity | by_eval | by_eval |].
  split.
  - rewrite Hselect by by_eval. vm_compute. reflexivity.
  - apply Hdeselect. by_eval.
Defined.

End Filtering.

(** ** The modal visibility hook *)

Module Modals.

Import useListModals.

Lemma calls_snoc s hs h : calls s (hs ++ [h]) = call (calls s hs) h.
Proof. unfold calls. by rewrite foldl_app. Qed.

Lemma call_other_modal s h :
  (onFilterModal h = false → filterModalVisible (call s h) = filterModalVisible s) ∧
  (onFilterModal h = true → sortModalVisible (call s h) = sortModalVisible s).
Proof. by destruct h. Qed.

(** The visibility of a modal after a call depends only on its visibility
    before the call. *)
Lemma call_same_modal s1 s2 h :
  (filterModalVisible s1 = filterModalVisible s2 →
   filterModalVisible (call s1 h) = filterModalVisible (call s2 h)) ∧
  (sortModalVisible s1 = sortModalVisible s2 →
   sortModalVisible (call s1 h) = sortModalVisible (call s2 h)).
Proof. destruct h; simpl; split; congruence. Qed.

(** X11: toggling a modal [n] times from any state flips its visibility
    when [n] is odd and restores it when [n] is even, and never touches the
    other modal; in particular two toggles restore the state. *)
Theorem toggle_parity s n :
  calls s (replicate n ToggleFilterModal) =
    {| filterModalVisible := xorb (Nat.odd n) (filterModalVisible s);
       sortModalVisible := sortModalVisible s |} ∧
  calls s (replicate n ToggleSortModal) =
    {| filterModalVisible := filterModalVisible s;
       sortModalVisible := xorb (Nat.odd n) (sortModalVisible s) |} ∧
  toggleFilterModal (toggleFilterModal s) = s ∧
  toggleSortModal (toggleSortModal s) = s.
Proof.
  split_and!.
  - induction n as [|n IH]; [by destruct s|].
    rewrite replicate_S_end, calls_snoc, IH, Nat.odd_succ, <- Nat.negb_odd.
    unfold call, toggleFilterModal, setFilterModalVisible. simpl.
    by destruct (Nat.odd n), (filterModalVisible s).
  - induction n as [|n IH]; [by destruct s|].
    rewrite replicate_S_end, calls_snoc, IH, Nat.odd_succ, <- Nat.negb_odd.
    unfold call, toggleSortModal, setSortModalVisible. simpl.
    by destruct (Nat.odd n), (sortModalVisible s).
  - by destruct s as [[] ?].
  - by destruct s as [? []].
Qed.

(** X12: the two modals do not interfere: after any sequence of handler
    calls, the visibility of the filter modal is what the filter-modal
    handlers of the sequence alone produce, and likewise for the sort
    modal. *)
Theorem modals_independent s hs :
  filterModalVisible (calls s hs) =
    filterModalVisible (calls s (filter (λ h, onFilterModal h = true) hs)) ∧
  sortModalVisible (calls s hs) =
    sortModalVisible (calls s (filter (λ h, onFilterModal h = false) hs)).
Proof.
  induction hs as [|h hs [IHf IHs]] using rev_ind; [done|].
  rewrite !filter_app, calls_snoc.
  destruct (call_other_modal (calls s hs) h) as [Hf Hs].
  destruct (onFilterModal h) eqn:Hh.
  - rewrite (filter_cons_True _ h) by done.
    rewrite (filter_cons_False (λ h, onFilterModal h = false) h) by (by rewrite Hh).
    rewrite !filter_nil, app_nil_r, calls_snoc. split.
    + by apply call_same_modal.
    + by rewrite Hs.
  - rewrite (filter_cons_False _ h) by (by rewrite Hh).
    rewrite (filter_cons_True (λ h, onFilterModal h = false) h) by done.
    rewrite !filter_nil, app_nil_r, calls_snoc. split.
    + by rewrite Hf.
    + by apply call_same_modal.
Qed.

(** X13: a handler of the filter modal and a handler of the sort modal
    commute: calling them in either order gives the same state. *)
Theorem handlers_of_different_modals_commute s h1 h2 :
  onFilterModal h1 ≠ onFilterModal h2 →
  call (call s h1) h2 = call (call s h2) h1.
Proof. destruct h1, h2; simpl; intros Hne; try done. Qed.

Lemma handlers_of_different_modals_commute_witness :
  call (call initial ToggleFilterModal) OpenSortModal =
  call (call initial OpenSortModal) ToggleFilterModal.
Proof.
  apply (handlers_of_different_modals_commute initial ToggleFilterModal OpenSortModal).
  discriminate.
Defined.

End Modals.

(** ** [DataFilterUtils]: conditions as a conjunction *)

Module DataFiltering.

Import DataFilterUtils.

Lemma filter_all {A} (P : A → Prop) `{!∀ x, Decision (P x)} (l : list A) :
  (∀ x, P x) → filter P l = l.
Proof.
  intros HP. induction l as [|x l IH]; [done|].
  by rewrite filter_cons_True, IH.
Qed.


(** *** The two loops *)

Section Loops.

Context {A : Type}.

Implicit Types (p q : A → option bool) (xs ys kept : list A).

Lemma every_app p xs ys :
  Throwing.every p (xs ++ ys) =
    Throwing.every p xs ≫= λ b : bool, if b then Throwing.every p ys else Some false.
Proof.
  induction xs as [|x xs IH]; [done|].
  simpl. destruct (p x) as [[]|]; simpl; [apply IH | done | done].
Qed.

Lemma every_Some_true p xs :
  Throwing.every p xs = Some true ↔ Forall (λ x, p x = Some true) xs.
Proof.
  induction xs as [|x xs IH]; simpl.
  - split; [constructor | done].
  - rewrite Forall_cons. destruct (p x) as [[]|]; simpl.
    + rewrite IH. tauto.
    + split; [done | by intros [? _]].
    + split; [done | by intros [? _]].
Qed.

Lemma every_is_Some p xs :
  Forall (λ x, is_Some (p x)) xs → is_Some (Throwing.every p xs).
Proof.
  induction 1 as [|x xs [b Hb] _ IH]; simpl; [done|].
  rewrite Hb. simpl. by destruct b.
Qed.


Lemma throwing_filter_Some p xs kept :
  Throwing.filter p xs = Some kept ↔
  Forall (λ x, is_Some (p x)) xs ∧ kept = filter (λ x, p x = Some true) xs.
Proof.
  revert kept. induction xs as [|x xs IH]; intros kept; simpl.
  - split; [by intros [= <-] | by intros [_ ->]].
  - rewrite Forall_cons, filter_cons.
    destruct (p x) as [b|] eqn:Hx; simpl.
    + destruct (Throwing.filter p xs) as [kept'|] eqn:Hxs; simpl.
      * destruct (IH kept') as [[Hall ->] _]; [done|].
        split.
        -- intros [= <-]. split; [done|].
           destruct b; [by rewrite decide_True | by rewrite decide_False].
        -- intros [_ ->].
           destruct b; [by rewrite decide_True | by rewrite decide_False].
      * split; [done|]. intros [[_ Hall] _].
        specialize (IH (filter (λ x, p x = Some true) xs)).
        destruct IH as [_ IH]. by specialize (IH (conj Hall eq_refl)).
    + split; [done|]. intros [[[? ?] _] _]. done.
Qed.


Lemma throwing_filter_ext p q xs :
  (∀ x, x ∈ xs → p x = q x) → Throwing.filter p xs = Throwing.filter q xs.
Proof.
  induction xs as [|x xs IH]; intros Hpq; [done|].
  simpl. rewrite (Hpq x) by apply list_elem_of_here.
  rewrite IH; [done|]. intros y Hy. apply Hpq. by apply list_elem_of_further.
Qed.

(** A callback that never throws gives the plain filter. *)
Lemma throwing_filter_total p (b : A → bool) xs :
  (∀ x, p x = Some (b x)) → Throwing.filter p xs = Some (filter (λ x, b x) xs).
Proof.
  intros Hp. apply throwing_filter_Some. split.
  - apply Forall_forall. intros x _. by rewrite Hp.
  - apply list_filter_iff. intros x. rewrite Hp. destruct (b x); simpl; naive_solver.
Qed.

Lemma throwing_filter_app p xs ys :
  Throwing.filter p (xs ++ ys) =
    Throwing.filter p xs ≫= λ kept1,
    Throwing.filter p ys ≫= λ kept2, Some (kept1 ++ kept2).
Proof.
  induction xs as [|x xs IH]; simpl.
  - by destruct (Throwing.filter p ys).
  - destruct (p x) as [b|]; simpl; [|done].
    rewrite IH. destruct (Throwing.filter p xs); simpl; [|done].
    by destruct (Throwing.filter p ys), b.
Qed.

(** Two passes are one pass with the two callbacks in sequence. *)
Lemma throwing_filter_filter p q xs :
  Throwing.filter p xs ≫= Throwing.filter q =
    Throwing.filter (λ x, p x ≫= λ b : bool, if b then q x else Some false) xs.
Proof.
  induction xs as [|x xs IH]; [done|].
  simpl. rewrite <- IH.
  destruct (p x) as [[]|]; simpl; [| |done].
  - destruct (Throwing.filter p xs) as [kept|]; simpl.
    + reflexivity.
    + destruct (q x); reflexivity.
  - destruct (Throwing.filter p xs) as [kept|]; simpl; [|done].
    by rewrite bind_with_Some.
Qed.

End Loops.

Section Runtime.

Context {Other Item : Type} `{!Runtime Other} `{!Indexed Other Item}.

Implicit Types (data : list Item) (filters : list (FilterCondition Other)).
Implicit Types (item : Item) (f : FilterCondition Other).

(** With a list of conditions, empty or not, [applyFilters] is the two
    nested loops. *)
Lemma applyFilters_Some data filters :
  applyFilters data (Some filters) =
    Throwing.filter (λ item, Throwing.every (λ f, test item f) filters) data.
Proof.
  unfold applyFilters. case_bool_decide as Hlen; [|done].
  destruct filters; [|done]. simpl.
  rewrite (throwing_filter_total _ (λ _, true)) by done.
  by rewrite filter_all.
Qed.





(** X15: applying two lists of conditions one after the other is applying
    their concatenation, also when a condition throws: then both throw. *)
Theorem applyFilters_compose data filters1 filters2 :
  applyFilters data (Some filters1) ≫= (λ kept, applyFilters kept (Some filters2)) =
    applyFilters data (Some (filters1 ++ filters2)).
Proof.
  rewrite (option_bind_ext_fun _
             (Throwing.filter (λ item, Throwing.every (λ f, test item f) filters2)))
    by (intros; apply applyFilters_Some).
  rewrite !applyFilters_Some, throwing_filter_filter.
  apply throwing_filter_ext. intros item _. by rewrite every_app.
Qed.

(** X16: two lists of conditions that are permutations of each other give
    the same result whenever both calls return; and when every condition
    can be evaluated on every item without throwing, both calls return and
    the results are equal. (A [like] condition on a RegExp throws, and then
    the order decides whether it is reached.) *)
Theorem applyFilters_permutation data filters1 filters2 :
  filters1 ≡ₚ filters2 →
  (∀ kept1 kept2,
     applyFilters data (Some filters1) = Some kept1 →
     applyFilters data (Some filters2) = Some kept2 →
     kept1 = kept2) ∧
  (Forall (λ f, Forall (λ item, is_Some (test item f)) data) filters1 →
     is_Some (applyFilters data (Some filters1)) ∧
     applyFilters data (Some filters1) = applyFilters data (Some filters2)).
Proof.
  intros Hperm.
  assert (Hsame : filter (λ item, Throwing.every (λ f, test item f) filters1 = Some true) data
                  = filter (λ item, Throwing.every (λ f, test item f) filters2 = Some true) data).
  { apply list_filter_iff. intros item. rewrite !every_Some_true. by rewrite Hperm. }
  split.
  - intros kept1 kept2. rewrite !applyFilters_Some, !throwing_filter_Some.
    intros [_ ->] [_ ->]. exact Hsame.
  - intros Hdefined.
    assert (Hreturns : ∀ filters, filters1 ≡ₚ filters →
              applyFilters data (Some filters) =
                Some (filter (λ item, Throwing.every (λ f, test item f) filters = Some true)
                        data)).
    { intros filters Hp. rewrite applyFilters_Some. apply throwing_filter_Some. split; [|done].
      apply Forall_forall. intros item Hitem. apply every_is_Some.
      rewrite <- Hp. eapply Forall_impl; [exact Hdefined|].
      intros f Hf. by eapply Forall_forall in Hf. }
    rewrite (Hreturns filters1), (Hreturns filters2) by done.
    split; [done | by rewrite Hsame].
Qed.

(** X17: filtering an already filtered list with the same conditions
    changes nothing; if the first call throws there is nothing to filter. *)
Theorem applyFilters_idempotent data (filters : option (list (FilterCondition Other))) :
  applyFilters data filters ≫= (λ kept, applyFilters kept filters) = applyFilters data filters.
Proof.
  destruct filters as [filters|]; [|done].
  rewrite (option_bind_ext_fun _
             (Throwing.filter (λ item, Throwing.every (λ f, test item f) filters)))
    by (intros; apply applyFilters_Some).
  rewrite !applyFilters_Some, throwing_filter_filter.
  apply throwing_filter_ext. intros item _.
  by destruct (Throwing.every _ filters) as [[]|] eqn:Hitem; simpl.
Qed.




(** X21: filtering a concatenation is filtering each part; it throws when
    filtering one of the parts does. *)
Theorem applyFilters_data_app data1 data2 (filters : option (list (FilterCondition Other))) :
  applyFilters (data1 ++ data2) filters =
    applyFilters data1 filters ≫= λ kept1,
    applyFilters data2 filters ≫= λ kept2, Some (kept1 ++ kept2).
Proof.
  destruct filters as [filters|]; [|done].
  rewrite !applyFilters_Some. apply throwing_filter_app.
Qed.



Lemma append_assoc (a b c : string) : (a +:+ b) +:+ c = a +:+ (b +:+ c).
Proof.
  induction a as [|ch a IH]; [done|].
  change (String ch ((a +:+ b) +:+ c) = String ch (a +:+ (b +:+ c))).
  by rewrite IH.
Qed.

Lemma concat_app (sep : string) (l1 l2 : list string) :
  l1 ≠ [] → l2 ≠ [] →
  String.concat sep (l1 ++ l2) = String.concat sep l1 +:+ sep +:+ String.concat sep l2.
Proof.
  intros H1 H2. induction l1 as [|x l1 IH]; [done|].
  destruct l1 as [|y l1].
  - destruct l2; [done|]. reflexivity.
  - change (x +:+ sep +:+ String.concat sep ((y :: l1) ++ l2) =
            (x +:+ sep +:+ String.concat sep (y :: l1)) +:+ sep +:+ String.concat sep l2).
    rewrite IH by done. by rewrite !append_assoc.
Qed.

(** X23: the string built for a concatenation of two non-empty lists of
    conditions is the two strings joined by a comma; the empty list builds
    the empty string. *)
Theorem buildFilterString_app filters1 filters2 :
  filters1 ≠ [] → filters2 ≠ [] →
  buildFilterString (filters1 ++ filters2) =
    buildFilterString filters1 +:+ "," +:+ buildFilterString filters2 ∧
  buildFilterString (@nil (FilterCondition Other)) = "".
Proof.
  intros H1 H2. split; [|done].
  unfold buildFilterString. rewrite map_app.
  apply concat_app; by destruct filters1, filters2.
Qed.

(** X24: string values are quoted but not escaped, so the built string
    does not determine the conditions: one condition whose value contains a
    quote and a comma builds the same string as two conditions. *)
Theorem buildFilterString_not_injective fld1 op1 fld2 op2 (a b : string) :
  [ {| field := fld1; operator := op1;
       value := VStr (a +:+ dquote +:+ "," +:+ fld2 +:+ "." +:+ op2 +:+ "." +:+ dquote +:+ b) |} ]
  ≠ [ {| field := fld1; operator := op1; value := @VStr Other a |};
      {| field := fld2; operator := op2; value := VStr b |} ] ∧
  buildFilterString
    [ {| field := fld1; operator := op1;
         value := VStr (a +:+ dquote +:+ "," +:+ fld2 +:+ "." +:+ op2 +:+ "." +:+ dquote +:+ b) |} ]
  = buildFilterString
      [ {| field := fld1; operator := op1; value := @VStr Other a |};
        {| field := fld2; operator := op2; value := VStr b |} ].
Proof.
  split; [discriminate|].
  unfold buildFilterString. simpl. by rewrite !append_assoc.
Qed.

End Runtime.

Import Tasks.

(** A [like] on a RegExp throws when it is reached: placed after a condition
    that no task passes it is never evaluated, placed first it throws. *)
Example like_RegExp_order :
  applyFilters tasks (Some [condition "status" "eq" "archived"; likeRegExp]) = Some [] ∧
  applyFilters tasks (Some [likeRegExp; condition "status" "eq" "archived"]) = None ∧
  applyFilters [] (Some [likeRegExp]) = Some (@nil Task).
Proof. repeat split; vm_compute; reflexivity. Qed.


Lemma applyFilters_permutation_witness :
  applyFilters tasks (Some [condition "status" "eq" "active"; condition "title" "like" "Re"]) =
  applyFilters tasks (Some [condition "title" "like" "Re"; condition "status" "eq" "active"]).
Proof.
  destruct (applyFilters_permutation tasks
              [condition "status" "eq" "active"; condition "title" "like" "Re"]
              [condition "title" "like" "Re"; condition "status" "eq" "active"])
    as [_ Hreturns]; [apply Permutation_swap|].
  apply Hreturns. by_eval.
Defined.



Lemma buildFilterString_app_witness :
  buildFilterString ([condition "status" "eq" "active"] ++ [condition "title" "like" "Re"]) =
    buildFilterString [condition "status" "eq" "active"] +:+ "," +:+
    buildFilterString [condition "title" "like" "Re"].
Proof.
  apply (buildFilterString_app [condition "status" "eq" "active"]
                               [condition "title" "like" "Re"]); discriminate.
Defined.

End DataFiltering.


(** ** Sequences of presses *)

Module Sequences.

Import useListFilters Facts Shape Examples Queries Invariants Filtering.

Lemma run_presses_snoc config ids x :
  run config (map Press (ids ++ [x])) = handleFilterPress config (run config (map Press ids)) x.
Proof. rewrite map_app. exact (run_snoc config (map Press ids) (Press x)). Qed.

(** X25: in multi-select mode, pressing distinct non-default identifiers
    one after the other from the initial state selects exactly these
    identifiers, in the order they were pressed. *)
Theorem multi_select_press_order config ids :
  multiSelectMode config →
  ids ≠ [] →
  NoDup ids →
  defaultFilterId config ∉ ids →
  run config (map Press ids) = ids.
Proof.
  intros Hmode. induction ids as [|x ids IH] using rev_ind; [done|].
  intros _ Hnd Hd.
  apply NoDup_app in Hnd as (Hnd & Hfresh & _).
  apply not_elem_of_app in Hd as [Hd Hx].
  rewrite list_elem_of_singleton in Hx.
  assert (Hnotin : x ∉ ids).
  { intros Hin. apply (Hfresh x Hin), list_elem_of_here. }
  rewrite run_presses_snoc, handleFilterPress_multi by done.
  rewrite (bool_decide_eq_false_2 (x = _)) by congruence.
  destruct ids as [|y ids].
  - change (run config (map Press [])) with [defaultFilterId config].
    rewrite bool_decide_eq_false_2 by (rewrite list_elem_of_singleton; congruence).
    by rewrite filter_ne_self.
  - rewrite IH by done.
    rewrite bool_decide_eq_false_2 by done.
    by rewrite filter_ne_absent.
Qed.

Lemma multi_select_press_order_witness :
  run multi (map Press ["completed"; "archived"; "active"]) =
    ["completed"; "archived"; "active"].
Proof.
  apply (multi_select_press_order multi ["completed"; "archived"; "active"]);
    [reflexivity | discriminate | by_eval | by_eval].
Defined.

(** X26: in single-select mode, pressing the empty identifier when it is
    not selected makes it the selection; but the queries then see no active
    filter, [activeFilter] is the default identifier, and [applyFilters]
    returns every item without calling the predicate. *)
Theorem single_select_press_empty_identifier {T : Type} config selectedIds (items : list T)
    (filterFn : T → string → bool) :
  singleSelectMode config →
  "" ∉ selectedIds →
  handleFilterPress config selectedIds "" = [""] ∧
  activeFilter config (handleFilterPress config selectedIds "") = defaultFilterId config ∧
  hasActiveFilter config (handleFilterPress config selectedIds "") = false ∧
  applyFilters config (handleFilterPress config selectedIds "") items filterFn = (items, []).
Proof.
  intros Hmode Hnotin. rewrite handleFilterPress_single by done.
  rewrite bool_decide_eq_false_2 by done. simpl.
  assert (Hoff : hasActiveFilter config [""] = false).
  { unfold hasActiveFilter. rewrite hasActiveFilter_unfold, getActiveFilter_cons. simpl.
    by apply bool_decide_eq_false_2; intros []. }
  split_and!; [done | done | done |].
  by apply applyFilters_inactive.
Qed.

Lemma single_select_press_empty_identifier_witness :
  handleFilterPress single ["active"] "" = [""] ∧
  activeFilter single (handleFilterPress single ["active"] "") = defaultFilterId single ∧
  hasActiveFilter single (handleFilterPress single ["active"] "") = false ∧
  applyFilters single (handleFilterPress single ["active"] "") todos byStatus = (todos, []).
Proof.
  apply (single_select_press_empty_identifier single ["active"] todos byStatus);
    [reflexivity | by_eval].
Defined.

End Sequences.
